(** * pkg/kubectl/resource/selector.go: the label-selector visitor

    A shallow embedding of [Selector], [NewSelector], [Selector.Visit],
    [Selector.Watch] and [Selector.ResourceMapping], and the properties of the
    paginated traversal that the specification states about them.

    Conventions of the embedding.
    - A Go [error] is [option error]: [None] is [nil].
    - A [*errors.StatusError] is an address into a store of statuses
      ([Heap]); writing [se.ErrStatus.Message] updates the store, and every
      holder of the same address sees the new message.
    - The REST helper ([NewHelper(...).List], [NewHelper(...).Watch]), the
      visitor function and the [%q] verb are collaborators of the file; they
      are taken as arguments.  Calls to the stateful ones thread a [State]
      and are recorded, with their arguments and results, in a list of
      [event]s, so that "how often" and "in which order" can be stated.
    - [for { ... }] has no bound of its own: [Visit_loop] takes the number of
      passes it may make and tells whether the loop has returned within
      them. *)

From Stdlib Require Import String Ascii ZArith List Bool Lia.
From stdpp Require Import base functions strings list.

Local Open Scope string_scope.

(** ** Strings *)

(** The double quote character (34). *)
Definition dquote : string := String "034"%char EmptyString.

(** The backslash character (92). *)
Definition backslash : string := String "092"%char EmptyString.

Definition lowerhex (n : nat) : string :=
  match String.get n "0123456789abcdef" with
  | Some c => String c EmptyString
  | None => EmptyString
  end.

(** What [strconv.Quote] appends for one byte below 0x80: the quote and the
    backslash are backslashed, printable ASCII is copied, the seven named
    control characters get their letter, the others [\x] and two hex digits. *)
Definition quote_byte (c : ascii) : string :=
  let n := nat_of_ascii c in
  if (n =? 34)%nat || (n =? 92)%nat then backslash ++ String c EmptyString
  else if (32 <=? n)%nat && (n <? 127)%nat then String c EmptyString
  else match n with
       | 7 => backslash ++ "a"
       | 8 => backslash ++ "b"
       | 12 => backslash ++ "f"
       | 10 => backslash ++ "n"
       | 13 => backslash ++ "r"
       | 9 => backslash ++ "t"
       | 11 => backslash ++ "v"
       | _ => backslash ++ "x" ++ lowerhex (n / 16) ++ lowerhex (n mod 16)
       end.

Fixpoint quote_bytes (s : string) : string :=
  match s with
  | EmptyString => EmptyString
  | String c s' => quote_byte c ++ quote_bytes s'
  end.

(** [strconv.Quote] on a string of 7-bit bytes (what [%q] prints for such a
    string).  Bytes from 0x80 on need Go's UTF-8 decoder and Unicode tables;
    they are rendered here as a lone invalid byte is, and no statement below
    relies on them. *)
Definition QuoteASCII (s : string) : string := dquote ++ quote_bytes s ++ dquote.

(** [strings.HasPrefix] and [strings.Contains], used to state what a message
    contains. *)
Fixpoint HasPrefix (s p : string) {struct p} : bool :=
  match p, s with
  | EmptyString, _ => true
  | String c p', String d s' => if Ascii.eqb c d then HasPrefix s' p' else false
  | String _ _, EmptyString => false
  end.

Fixpoint Contains (s sub : string) : bool :=
  HasPrefix s sub ||
  match s with
  | EmptyString => false
  | String _ s' => Contains s' sub
  end.

(** ** Data *)

(** [schema.GroupVersionKind]. *)
Module GroupVersionKind.
Record t := { Group : string; Version : string; Kind : string }.
End GroupVersionKind.

(** [metav1.StatusReason] is a string type; the four values the classifiers
    below compare with. *)
Definition StatusReason := string.
Definition StatusReasonUnknown : StatusReason := "".
Definition StatusReasonNotFound : StatusReason := "NotFound".
Definition StatusReasonBadRequest : StatusReason := "BadRequest".
Definition StatusReasonExpired : StatusReason := "Expired".

(** [metav1.StatusDetails], as far as a status carries it along; [Visit]
    never looks inside. *)
Module StatusDetails.
Record t := { Name : string; Group : string; Kind : string; RetryAfterSeconds : Z }.
End StatusDetails.

(** [metav1.Status], the structured payload of an API error. *)
Module Status.
Record t := {
  Kind : string;
  APIVersion : string;
  Status : string;
  Message : string;
  Reason : StatusReason;
  Details : option StatusDetails.t;
  Code : Z
}.

(** The assignment [st.Message = m]. *)
Definition set_Message (m : string) (st : t) : t :=
  {| Kind := Kind st; APIVersion := APIVersion st; Status := Status st;
     Message := m; Reason := Reason st; Details := Details st; Code := Code st |}.
End Status.

(** An address of an [errors.StatusError]. *)
Definition loc := nat.

(** The store of [errors.StatusError] values: the [ErrStatus] at each
    address.  Every address holds a value: a nil [*StatusError] wrapped in an
    [error] is not modelled. *)
Definition Heap := loc -> Status.t.

(** The dynamic types an [error] value can have, as far as [Visit] can tell
    them apart: a [*errors.StatusError]; another type with a [Status()]
    method (an [errors.APIStatus]); any type without one, among them what
    [fmt.Errorf] returns.  The last two carry the text of [Error()]. *)
Inductive error :=
| StatusErrorPtr (se : loc)
| APIStatusError (msg : string) (status : Status.t)
| PlainError (msg : string).

(** [err.Error()]; for a [*StatusError] this is [e.ErrStatus.Message]. *)
Definition Error (h : Heap) (err : error) : string :=
  match err with
  | StatusErrorPtr se => Status.Message (h se)
  | APIStatusError msg _ => msg
  | PlainError msg => msg
  end.

(** Modelled from the spec: [errors.ReasonForError] of
    k8s.io/apimachinery/pkg/api/errors, which is not under src/.  The
    collaborator's errors "optionally expose a structured status object" and
    are classified by it: the reason of an error is the reason of the status
    it exposes, and unknown when it exposes none. *)
Definition ReasonForError (h : Heap) (err : error) : StatusReason :=
  match err with
  | StatusErrorPtr se => Status.Reason (h se)
  | APIStatusError _ status => Status.Reason status
  | PlainError _ => StatusReasonUnknown
  end.

(** Modelled from the spec: [errors.IsResourceExpired], [errors.IsBadRequest]
    and [errors.IsNotFound] of the same package, not under src/: the three
    conditions "resource expired", "bad request" and "not found" for which an
    error must be introspectable. *)
Definition IsResourceExpired (h : Heap) (err : error) : bool :=
  String.eqb (ReasonForError h err) StatusReasonExpired.

Definition IsBadRequest (h : Heap) (err : error) : bool :=
  String.eqb (ReasonForError h err) StatusReasonBadRequest.

Definition IsNotFound (h : Heap) (err : error) : bool :=
  String.eqb (ReasonForError h err) StatusReasonNotFound.

(** [RESTClient], [runtime.Object] and [watch.Interface] are interfaces whose
    methods this file never calls: values of them are references, told apart
    by a name. *)
Inductive RESTClient := RESTClientRef (name : string).
Inductive Object := ObjectRef (name : string).
Inductive WatchInterface := WatchRef (name : string).

(** [meta.MetadataAccessor], the two methods [Visit] calls.  Each returns a
    string and an error, as in Go. *)
Module MetadataAccessor.
Record t := {
  ResourceVersion : Object -> string * option error;
  Continue : Object -> string * option error
}.
End MetadataAccessor.

(** [meta.RESTMapping]: the resource name, the kind, and the embedded
    metadata accessor. *)
Module RESTMapping.
Record t := {
  Resource : string;
  GroupVersionKind : GroupVersionKind.t;
  MetadataAccessor : MetadataAccessor.t
}.
End RESTMapping.

(** [metav1.ListOptions], the four fields [Visit] sets. *)
Module ListOptions.
Record t := {
  LabelSelector : string;
  IncludeUninitialized : bool;
  Limit : Z;
  Continue : string
}.
End ListOptions.

(** [Info], the fields [Visit] sets; the others keep their zero value. *)
Module Info.
Record t := {
  Client : RESTClient;
  Mapping : RESTMapping.t;
  Namespace : string;
  Object : Object;
  ResourceVersion : string
}.
End Info.

(** [type Selector struct]. *)
Module Selector.
Record t := {
  Client : RESTClient;
  Mapping : RESTMapping.t;
  Namespace : string;
  Selector : string;
  Export : bool;
  IncludeUninitialized : bool;
  LimitChunks : Z
}.
End Selector.

(** The calls [Visit] and [Watch] make, with their arguments and what came
    back. *)
Inductive event :=
| EvList (client : RESTClient) (mapping : RESTMapping.t)
    (namespace apiVersion : string) (export : bool) (options : ListOptions.t)
    (ret : Object * option error)
| EvVisitorFunc (info : Info.t) (err : option error) (ret : option error)
| EvWatch (client : RESTClient) (mapping : RESTMapping.t)
    (namespace resourceVersion apiVersion labelSelector : string)
    (ret : WatchInterface * option error).

(** ** The selector *)

Section Code.

(** Whatever else the collaborators keep: the server's collection, the
    variables a visitor function has captured, the open connections. *)
Context {World : Type}.

Record State := { heap : Heap; world : World }.

(** [type VisitorFunc]: a function of a pointer to [Info] and an [error],
    returning an [error]. *)
Definition VisitorFunc := Info.t -> option error -> State -> option error * State.

(** The collaborators outside the file.
    - [Quote]: [strconv.Quote], what [%q] prints for a string;
    - [GroupVersionString]: [gvk.GroupVersion().String()];
    - [HelperList client mapping]: [NewHelper(client, mapping).List];
    - [HelperWatch client mapping]: [NewHelper(client, mapping).Watch]. *)
Class Collaborators := {
  Quote : string -> string;
  GroupVersionString : GroupVersionKind.t -> string;
  HelperList : RESTClient -> RESTMapping.t ->
               string -> string -> bool -> ListOptions.t ->
               State -> (Object * option error) * State;
  HelperWatch : RESTClient -> RESTMapping.t ->
                string -> string -> string -> string ->
                State -> (WatchInterface * option error) * State
}.

Context `{Collaborators}.

(** [NewSelector]. *)
Definition NewSelector (client : RESTClient) (mapping : RESTMapping.t)
    (namespace selector : string) (export includeUninitialized : bool)
    (limitChunks : Z) : Selector.t :=
  {| Selector.Client := client;
     Selector.Mapping := mapping;
     Selector.Namespace := namespace;
     Selector.Selector := selector;
     Selector.Export := export;
     Selector.IncludeUninitialized := includeUninitialized;
     Selector.LimitChunks := limitChunks |}.

(** [Selector.ResourceMapping]. *)
Definition ResourceMapping (r : Selector.t) : RESTMapping.t :=
  Selector.Mapping r.

(** [fmt.Sprintf("Unable to list %q: %v", resource, v)]. *)
Definition Sprintf_Unable_to_list (resource v : string) : string :=
  "Unable to list " ++ Quote resource ++ ": " ++ v.

(** [fmt.Sprintf("Unable to find %q that match the selector %q: %v",
    resource, selector, v)]. *)
Definition Sprintf_Unable_to_find (resource selector v : string) : string :=
  "Unable to find " ++ Quote resource ++ " that match the selector " ++
  Quote selector ++ ": " ++ v.

(** The [&metav1.ListOptions{...}] of one iteration. *)
Definition Visit_options (r : Selector.t) (continueToken : string) : ListOptions.t :=
  {| ListOptions.LabelSelector := Selector.Selector r;
     ListOptions.IncludeUninitialized := Selector.IncludeUninitialized r;
     ListOptions.Limit := Selector.LimitChunks r;
     ListOptions.Continue := continueToken |}.

(** The [&Info{...}] of one iteration. *)
Definition Visit_info (r : Selector.t) (list : Object) (resourceVersion : string) : Info.t :=
  {| Info.Client := Selector.Client r;
     Info.Mapping := Selector.Mapping r;
     Info.Namespace := Selector.Namespace r;
     Info.Object := list;
     Info.ResourceVersion := resourceVersion |}.

(** The [if err != nil { ... }] block of [Visit]: the error it returns and
    the store it leaves. *)
Definition Visit_list_error (r : Selector.t) (err : error) (s : State) : error * State :=
  if IsResourceExpired (heap s) err then (err, s)
  else if IsBadRequest (heap s) err || IsNotFound (heap s) err then
    match err with
    | StatusErrorPtr se =>
        let message :=
          if (String.length (Selector.Selector r) =? 0)%nat
          then Sprintf_Unable_to_list
                 (RESTMapping.Resource (Selector.Mapping r))
                 (Status.Message (heap s se))
          else Sprintf_Unable_to_find
                 (RESTMapping.Resource (Selector.Mapping r))
                 (Selector.Selector r)
                 (Status.Message (heap s se)) in
        (StatusErrorPtr se,
         {| heap := alter (Status.set_Message message) se (heap s);
            world := world s |})
    | _ =>
        if (String.length (Selector.Selector r) =? 0)%nat
        then (PlainError (Sprintf_Unable_to_list
                            (RESTMapping.Resource (Selector.Mapping r))
                            (Error (heap s) err)), s)
        else (PlainError (Sprintf_Unable_to_find
                            (RESTMapping.Resource (Selector.Mapping r))
                            (Selector.Selector r)
                            (Error (heap s) err)), s)
    end
  else (err, s).

(** How one pass through the body of [for { ... }] ends: with [return err],
    or at the closing brace with the next [continueToken]. *)
Inductive pass :=
| Return (err : option error)
| Next (continueToken : string).

(** One pass through the body of the loop of [Visit], entered with
    [continueToken] in state [s]: how it ends, the state it leaves, and the
    calls it made. *)
Definition Visit_body (r : Selector.t) (fn : VisitorFunc) (continueToken : string)
    (s : State) : pass * State * list event :=
  let apiVersion := GroupVersionString (RESTMapping.GroupVersionKind (ResourceMapping r)) in
  let options := Visit_options r continueToken in
  let '((list, err), s1) :=
    HelperList (Selector.Client r) (Selector.Mapping r)
      (Selector.Namespace r) apiVersion (Selector.Export r) options s in
  let ev1 := EvList (Selector.Client r) (Selector.Mapping r)
               (Selector.Namespace r) apiVersion (Selector.Export r) options (list, err) in
  match err with
  | Some err =>
      let '(err', s2) := Visit_list_error r err s1 in
      (Return (Some err'), s2, [ev1])
  | None =>
      let accessor := RESTMapping.MetadataAccessor (Selector.Mapping r) in
      let '(resourceVersion, _) := MetadataAccessor.ResourceVersion accessor list in
      let '(nextContinueToken, _) := MetadataAccessor.Continue accessor list in
      let info := Visit_info r list resourceVersion in
      let '(err, s2) := fn info None s1 in
      let ev2 := EvVisitorFunc info None err in
      match err with
      | Some err => (Return (Some err), s2, [ev1; ev2])
      | None =>
          if (String.length nextContinueToken =? 0)%nat
          then (Return None, s2, [ev1; ev2])
          else (Next nextContinueToken, s2, [ev1; ev2])
      end
  end.

(** The loop of [Visit], entered with [continueToken] in state [s], run for
    at most [fuel] passes: [Some err] when the loop has returned [err]
    within them and [None] when it is still running, with the state reached
    and the calls made so far. *)
Fixpoint Visit_loop (fuel : nat) (r : Selector.t) (fn : VisitorFunc)
    (continueToken : string) (s : State) : option (option error) * State * list event :=
  match fuel with
  | O => (None, s, [])
  | S fuel' =>
      let '(p, s1, evs) := Visit_body r fn continueToken s in
      match p with
      | Return err => (Some err, s1, evs)
      | Next nextContinueToken =>
          let '(res, s2, evs') := Visit_loop fuel' r fn nextContinueToken s1 in
          (res, s2, (evs ++ evs')%list)
      end
  end.

(** [Selector.Visit]: [var continueToken string] is the empty string. *)
Definition Visit (fuel : nat) (r : Selector.t) (fn : VisitorFunc) (s : State)
    : option (option error) * State * list event :=
  Visit_loop fuel r fn "" s.

(** [Selector.Watch]. *)
Definition Watch (r : Selector.t) (resourceVersion : string) (s : State)
    : (WatchInterface * option error) * State * list event :=
  let apiVersion := GroupVersionString (RESTMapping.GroupVersionKind (ResourceMapping r)) in
  let '(ret, s1) :=
    HelperWatch (Selector.Client r) (Selector.Mapping r)
      (Selector.Namespace r) resourceVersion apiVersion (Selector.Selector r) s in
  (ret, s1,
   [EvWatch (Selector.Client r) (Selector.Mapping r)
      (Selector.Namespace r) resourceVersion apiVersion (Selector.Selector r) ret]).

End Code.

Arguments State : clear implicits.
Arguments VisitorFunc : clear implicits.
Arguments Collaborators : clear implicits.

(** ** What a run shows *)

Section Observations.

Context {World : Type} `{Collaborators World}.

(** The API version string [Visit] and [Watch] pass on. *)
Definition apiVersion_of (r : Selector.t) : string :=
  GroupVersionString (RESTMapping.GroupVersionKind (ResourceMapping r)).

(** The call of [List] of a pass entered with [continueToken] in state
    [s]: what the helper returns and the state it leaves. *)
Definition fetch (r : Selector.t) (continueToken : string) (s : State World)
    : (Object * option error) * State World :=
  HelperList (Selector.Client r) (Selector.Mapping r) (Selector.Namespace r)
    (apiVersion_of r) (Selector.Export r) (Visit_options r continueToken) s.

(** The call of [List] that [Visit] makes with [continueToken], and what it
    returned. *)
Definition list_call (r : Selector.t) (continueToken : string)
    (ret : Object * option error) : event :=
  EvList (Selector.Client r) (Selector.Mapping r) (Selector.Namespace r)
    (apiVersion_of r) (Selector.Export r) (Visit_options r continueToken) ret.

(** What the accessor of the selector's mapping extracts from a page; the
    error beside it is dropped, as [Visit] drops it. *)
Definition resourceVersion_of (r : Selector.t) (list : Object) : string :=
  fst (MetadataAccessor.ResourceVersion
         (RESTMapping.MetadataAccessor (Selector.Mapping r)) list).

Definition continue_of (r : Selector.t) (list : Object) : string :=
  fst (MetadataAccessor.Continue
         (RESTMapping.MetadataAccessor (Selector.Mapping r)) list).

(** The call of the visitor function for the page [list], and what it
    returned. *)
Definition fn_call (r : Selector.t) (list : Object) (ret : option error) : event :=
  EvVisitorFunc (Visit_info r list (resourceVersion_of r list)) None ret.

(** The shape of the calls a run of the loop has made when it was entered
    with [continueToken]: nothing yet; a failed fetch; a page and its
    callback, after which the loop returned or has not gone on yet; a page
    with a cursor, its callback returning nil, and the calls of the loop
    entered with that cursor. *)
Inductive visit_trace (r : Selector.t) : string -> list event -> Prop :=
| vt_none continueToken :
    visit_trace r continueToken []
| vt_failed continueToken list err :
    visit_trace r continueToken [list_call r continueToken (list, Some err)]
| vt_page continueToken list ret :
    visit_trace r continueToken
      [list_call r continueToken (list, None); fn_call r list ret]
| vt_next continueToken list rest :
    continue_of r list <> "" ->
    visit_trace r (continue_of r list) rest ->
    visit_trace r continueToken
      (list_call r continueToken (list, None) :: fn_call r list None :: rest).

(** The message [Visit] composes for an error whose text is [v]. *)
Definition Visit_message (r : Selector.t) (v : string) : string :=
  if (String.length (Selector.Selector r) =? 0)%nat
  then Sprintf_Unable_to_list (RESTMapping.Resource (Selector.Mapping r)) v
  else Sprintf_Unable_to_find (RESTMapping.Resource (Selector.Mapping r))
         (Selector.Selector r) v.

(** The pages handed to the visitor function, in order. *)
Fixpoint visited (tr : list event) : list Object :=
  match tr with
  | [] => []
  | EvVisitorFunc info _ _ :: tr' => Info.Object info :: visited tr'
  | _ :: tr' => visited tr'
  end.

(** The continuation tokens of the fetches, in order. *)
Fixpoint fetched (tr : list event) : list string :=
  match tr with
  | [] => []
  | EvList _ _ _ _ _ options _ :: tr' => ListOptions.Continue options :: fetched tr'
  | _ :: tr' => fetched tr'
  end.

(** A collaborator and a visitor function that, from [continueToken] and
    state [s] on, serve the pages [pages] and no more: each fetch succeeds,
    each callback returns nil, every page but the last has a cursor, with
    which the next fetch is made, and the last has none; [s'] is the state
    after the last callback. *)
Inductive serves (r : Selector.t) (fn : VisitorFunc World)
  : string -> State World -> list Object -> State World -> Prop :=
| serves_last continueToken s list s1 s2 :
    fetch r continueToken s = ((list, None), s1) ->
    fn (Visit_info r list (resourceVersion_of r list)) None s1 = (None, s2) ->
    continue_of r list = "" ->
    serves r fn continueToken s [list] s2
| serves_more continueToken s list s1 s2 pages s3 :
    fetch r continueToken s = ((list, None), s1) ->
    fn (Visit_info r list (resourceVersion_of r list)) None s1 = (None, s2) ->
    continue_of r list <> "" ->
    serves r fn (continue_of r list) s2 pages s3 ->
    serves r fn continueToken s (list :: pages) s3.

End Observations.

(** ** A scripted collaborator

    A fake in the manner of a unit test: [List] hands out prepared responses
    one after the other, the visitor function notes the pages it is given. *)

Record Script := {
  responses : list (Object * option error);
  seen : list Object
}.

Definition script_List (_ : RESTClient) (_ : RESTMapping.t) (_ _ : string) (_ : bool)
    (_ : ListOptions.t) (s : State Script) : (Object * option error) * State Script :=
  match responses (world s) with
  | [] => ((ObjectRef "", Some (PlainError "no response left")), s)
  | ret :: rest =>
      (ret, {| heap := heap s;
               world := {| responses := rest; seen := seen (world s) |} |})
  end.

Definition script_Watch (_ : RESTClient) (_ : RESTMapping.t)
    (_ resourceVersion _ _ : string) (s : State Script)
    : (WatchInterface * option error) * State Script :=
  ((WatchRef resourceVersion, None), s).

(** [schema.GroupVersion.String] joins group and version with a slash and
    prints the version alone when there is no group. *)
Definition script_GroupVersionString (gvk : GroupVersionKind.t) : string :=
  if (String.length (GroupVersionKind.Group gvk) =? 0)%nat
  then GroupVersionKind.Version gvk
  else GroupVersionKind.Group gvk ++ "/" ++ GroupVersionKind.Version gvk.

#[export] Instance scripted : Collaborators Script := {|
  Quote := QuoteASCII;
  GroupVersionString := script_GroupVersionString;
  HelperList := script_List;
  HelperWatch := script_Watch
|}.

(** The visitor function that notes the page and returns nil. *)
Definition fn_note : VisitorFunc Script :=
  fun info _ s =>
    (None, {| heap := heap s;
              world := {| responses := responses (world s);
                          seen := (seen (world s) ++ [Info.Object info])%list |} |}).

(** The visitor function that gives up at once. *)
Definition fn_stop : VisitorFunc Script :=
  fun _ _ s => (Some (PlainError "stop"), s).

(** An accessor for the pages A, B and C; it fails on any other object. *)
Definition abc_accessor : MetadataAccessor.t := {|
  MetadataAccessor.ResourceVersion := fun obj =>
    match obj with
    | ObjectRef "A" => ("7", None)
    | ObjectRef "B" => ("8", None)
    | ObjectRef "C" => ("9", None)
    | _ => ("", Some (PlainError "object does not implement the List interfaces"))
    end;
  MetadataAccessor.Continue := fun obj =>
    match obj with
    | ObjectRef "A" => ("c1", None)
    | ObjectRef "B" => ("c2", None)
    | ObjectRef "C" => ("", None)
    | _ => ("", Some (PlainError "object does not implement the List interfaces"))
    end
|}.

Definition pods : RESTMapping.t := {|
  RESTMapping.Resource := "pods";
  RESTMapping.GroupVersionKind :=
    {| GroupVersionKind.Group := ""; GroupVersionKind.Version := "v1";
       GroupVersionKind.Kind := "Pod" |};
  RESTMapping.MetadataAccessor := abc_accessor
|}.

Definition pods_matching (selector : string) : Selector.t :=
  NewSelector (RESTClientRef "client") pods "default" selector false false 500.

Definition zero_Status : Status.t := {|
  Status.Kind := ""; Status.APIVersion := ""; Status.Status := "";
  Status.Message := ""; Status.Reason := StatusReasonUnknown;
  Status.Details := None; Status.Code := 0
|}.

Definition failure_Status (reason : StatusReason) (code : Z) (message : string) : Status.t := {|
  Status.Kind := "Status"; Status.APIVersion := "v1"; Status.Status := "Failure";
  Status.Message := message; Status.Reason := reason;
  Status.Details := None; Status.Code := code
|}.

(** A store with one [StatusError], at address 1. *)
Definition heap_with (st : Status.t) : Heap := <[1%nat := st]> (fun _ => zero_Status).

Definition script_state (st : Status.t) (rs : list (Object * option error)) : State Script :=
  {| heap := heap_with st; world := {| responses := rs; seen := [] |} |}.

Definition three_pages : list (Object * option error) :=
  [(ObjectRef "A", None); (ObjectRef "B", None); (ObjectRef "C", None)].

(** The statuses of three failures, as an API server words them. *)
Definition not_found_Status : Status.t :=
  failure_Status StatusReasonNotFound 404 "the server could not find the requested resource".

Definition bad_request_Status : Status.t :=
  failure_Status StatusReasonBadRequest 400 "unable to parse requirement".

Definition expired_Status : Status.t :=
  failure_Status StatusReasonExpired 410 "too old resource version".

(** A collaborator whose [List] returns page A, which has a cursor, every
    time it is called. *)
Definition endless_List (_ : RESTClient) (_ : RESTMapping.t) (_ _ : string) (_ : bool)
    (_ : ListOptions.t) (s : State Script) : (Object * option error) * State Script :=
  ((ObjectRef "A", None), s).

Definition endless : Collaborators Script := {|
  Quote := QuoteASCII;
  GroupVersionString := script_GroupVersionString;
  HelperList := endless_List;
  HelperWatch := script_Watch
|}.

(** An error of a type of its own that has a [Status()] method. *)
Definition foreign_not_found : error :=
  APIStatusError "no such resource" not_found_Status.

(** [sub] occurs in [s]. *)
Definition occurs_in (sub s : string) : Prop :=
  exists pre post, s = pre ++ sub ++ post.

(** The text before the original message when a selector is set, for the
    resource pods and the selector app=foo, in the capitals of the source. *)
Definition Unable_to_find_pods : string :=
  "Unable to find " ++ dquote ++ "pods" ++ dquote ++
  " that match the selector " ++ dquote ++ "app=foo" ++ dquote.

(** The text before the original message when no selector is set. *)
Definition Unable_to_list_pods : string :=
  "Unable to list " ++ dquote ++ "pods" ++ dquote.

(** The same text with a small initial, as the specification quotes it. *)
Definition unable_to_find_pods : string :=
  "unable to find " ++ dquote ++ "pods" ++ dquote ++
  " that match the selector " ++ dquote ++ "app=foo" ++ dquote.

(** * Properties *)

Lemma length_eqb_0 (s : string) : (String.length s =? 0)%nat = true <-> s = "".
Proof.
  destruct s as [|c s]; simpl; split; intros E; try reflexivity; discriminate E.
Qed.

Lemma length_eqb_0_false (s : string) : (String.length s =? 0)%nat = false <-> s <> "".
Proof.
  destruct s as [|c s]; simpl; split; intros E.
  - discriminate E.
  - exfalso; apply E; reflexivity.
  - intros E'; discriminate E'.
  - reflexivity.
Qed.

Section Passes.

Context {World : Type} `{Collaborators World}.

Implicit Types (r : Selector.t) (fn : VisitorFunc World) (s : State World)
  (list : Object) (err : error).

(** A pass whose fetch fails returns, with what the error block makes of the
    error, after that one call. *)
Lemma Visit_body_failed r fn continueToken s list err s1 :
  fetch r continueToken s = ((list, Some err), s1) ->
  Visit_body r fn continueToken s =
    (Return (Some (fst (Visit_list_error r err s1))),
     snd (Visit_list_error r err s1),
     [list_call r continueToken (list, Some err)]).
Proof.
  unfold fetch, Visit_body, list_call, apiVersion_of. intros ->.
  destruct (Visit_list_error r err s1); reflexivity.
Qed.

(** A pass whose fetch succeeds calls the visitor function once, and ends
    as its result and the cursor of the page say. *)
Lemma Visit_body_page r fn continueToken s list s1 ret s2 :
  fetch r continueToken s = ((list, None), s1) ->
  fn (Visit_info r list (resourceVersion_of r list)) None s1 = (ret, s2) ->
  Visit_body r fn continueToken s =
    (match ret with
     | Some err => Return (Some err)
     | None => if (String.length (continue_of r list) =? 0)%nat
               then Return None else Next (continue_of r list)
     end,
     s2,
     [list_call r continueToken (list, None); fn_call r list ret]).
Proof.
  unfold fetch, Visit_body, list_call, fn_call, apiVersion_of,
    resourceVersion_of, continue_of.
  intros -> Hfn.
  destruct (MetadataAccessor.ResourceVersion _ list) as [rv erv].
  destruct (MetadataAccessor.Continue _ list) as [c ec]. simpl in *.
  rewrite Hfn. destruct ret; [reflexivity|].
  destruct (String.length c =? 0)%nat; reflexivity.
Qed.

(** The loop after a pass that returned. *)
Lemma Visit_loop_return fuel r fn continueToken s ret s1 evs :
  Visit_body r fn continueToken s = (Return ret, s1, evs) ->
  Visit_loop (S fuel) r fn continueToken s = (Some ret, s1, evs).
Proof. simpl. intros ->. reflexivity. Qed.

(** The loop after a pass that reached the closing brace. *)
Lemma Visit_loop_next fuel r fn continueToken s next s1 evs :
  Visit_body r fn continueToken s = (Next next, s1, evs) ->
  Visit_loop (S fuel) r fn continueToken s =
    (let '(res, s2, evs') := Visit_loop fuel r fn next s1 in
     (res, s2, (evs ++ evs')%list)).
Proof. simpl. intros ->. reflexivity. Qed.

(** A page with a cursor whose callback returns nil: the loop goes on with
    that cursor. *)
Lemma Visit_loop_page_next fuel r fn continueToken s list s1 s2 :
  fetch r continueToken s = ((list, None), s1) ->
  fn (Visit_info r list (resourceVersion_of r list)) None s1 = (None, s2) ->
  continue_of r list <> "" ->
  Visit_loop (S fuel) r fn continueToken s =
    (let '(res, s3, evs) := Visit_loop fuel r fn (continue_of r list) s2 in
     (res, s3,
      list_call r continueToken (list, None) :: fn_call r list None :: evs)).
Proof.
  intros Hl Hfn Hc.
  erewrite Visit_loop_next.
  2:{ erewrite Visit_body_page by eassumption.
      apply length_eqb_0_false in Hc. rewrite Hc. reflexivity. }
  destruct (Visit_loop fuel r fn (continue_of r list) s2) as [[res s3] evs].
  reflexivity.
Qed.

(** A page without a cursor whose callback returns nil: the loop returns
    nil. *)
Lemma Visit_loop_page_last fuel r fn continueToken s list s1 s2 :
  fetch r continueToken s = ((list, None), s1) ->
  fn (Visit_info r list (resourceVersion_of r list)) None s1 = (None, s2) ->
  continue_of r list = "" ->
  Visit_loop (S fuel) r fn continueToken s =
    (Some None, s2, [list_call r continueToken (list, None); fn_call r list None]).
Proof.
  intros Hl Hfn Hc.
  apply Visit_loop_return.
  erewrite Visit_body_page by eassumption.
  apply length_eqb_0 in Hc. rewrite Hc. reflexivity.
Qed.

(** A page whose callback returns an error: the loop returns that error. *)
Lemma Visit_loop_page_abort fuel r fn continueToken s list s1 err s2 :
  fetch r continueToken s = ((list, None), s1) ->
  fn (Visit_info r list (resourceVersion_of r list)) None s1 = (Some err, s2) ->
  Visit_loop (S fuel) r fn continueToken s =
    (Some (Some err), s2,
     [list_call r continueToken (list, None); fn_call r list (Some err)]).
Proof.
  intros Hl Hfn.
  apply Visit_loop_return.
  erewrite Visit_body_page by eassumption. reflexivity.
Qed.

(** A failed fetch: the loop returns what the error block makes of the
    error. *)
Lemma Visit_loop_failed fuel r fn continueToken s list err s1 :
  fetch r continueToken s = ((list, Some err), s1) ->
  Visit_loop (S fuel) r fn continueToken s =
    (Some (Some (fst (Visit_list_error r err s1))),
     snd (Visit_list_error r err s1),
     [list_call r continueToken (list, Some err)]).
Proof.
  intros Hl. apply Visit_loop_return. eapply Visit_body_failed; eassumption.
Qed.

End Passes.

(** ** The traversal *)

Section Traversal.

Context {World : Type} `{Collaborators World}.

Implicit Types (r : Selector.t) (fn : VisitorFunc World) (s : State World)
  (list : Object) (err : error).

(** C1.  Let three successive calls of [List] return the pages [A], [B] and
    [C], whose cursors are "c1", "c2" and the empty string, and let the
    visitor function return nil for each of them (a callback that returns an
    error ends the traversal, see C2).  Then [Visit], given three passes or
    more, returns nil, and the calls it has made are exactly: the fetch with
    the empty token, the callback for [A], the fetch with "c1", the callback
    for [B], the fetch with "c2", the callback for [C].  Each call of [List]
    runs in the state its predecessor's callback left: one fetch and one
    callback per page, the callback of a page before the fetch of the
    next. *)
Theorem Visit_three_pages r fn A B C s0 s1 s2 s3 s4 s5 s6 :
  fetch r "" s0 = ((A, None), s1) ->
  continue_of r A = "c1" ->
  fn (Visit_info r A (resourceVersion_of r A)) None s1 = (None, s2) ->
  fetch r "c1" s2 = ((B, None), s3) ->
  continue_of r B = "c2" ->
  fn (Visit_info r B (resourceVersion_of r B)) None s3 = (None, s4) ->
  fetch r "c2" s4 = ((C, None), s5) ->
  continue_of r C = "" ->
  fn (Visit_info r C (resourceVersion_of r C)) None s5 = (None, s6) ->
  forall fuel,
    Visit (3 + fuel) r fn s0 =
      (Some None, s6,
       [list_call r "" (A, None); fn_call r A None;
        list_call r "c1" (B, None); fn_call r B None;
        list_call r "c2" (C, None); fn_call r C None])
    /\ visited (snd (Visit (3 + fuel) r fn s0)) = [A; B; C]
    /\ fetched (snd (Visit (3 + fuel) r fn s0)) = [""; "c1"; "c2"].
Proof.
  intros HA cA fA HB cB fB HC cC fC fuel.
  assert (E : Visit (3 + fuel) r fn s0 =
      (Some None, s6,
       [list_call r "" (A, None); fn_call r A None;
        list_call r "c1" (B, None); fn_call r B None;
        list_call r "c2" (C, None); fn_call r C None])).
  { unfold Visit. change (3 + fuel)%nat with (S (S (S fuel))).
    rewrite (Visit_loop_page_next _ _ _ _ _ _ _ _ HA fA) by (rewrite cA; discriminate).
    rewrite cA.
    rewrite (Visit_loop_page_next _ _ _ _ _ _ _ _ HB fB) by (rewrite cB; discriminate).
    rewrite cB.
    rewrite (Visit_loop_page_last _ _ _ _ _ _ _ _ HC fC cC).
    reflexivity. }
  rewrite E. repeat split.
Qed.

End Traversal.

(** The scripted collaborator with the pages A, B and C is such a run. *)
Lemma Visit_three_pages_witness :
  Visit 3 (pods_matching "app=foo") fn_note (script_state zero_Status three_pages)
  = (Some None,
     {| heap := heap_with zero_Status;
        world := {| responses := [];
                    seen := [ObjectRef "A"; ObjectRef "B"; ObjectRef "C"] |} |},
     [list_call (pods_matching "app=foo") "" (ObjectRef "A", None);
      fn_call (pods_matching "app=foo") (ObjectRef "A") None;
      list_call (pods_matching "app=foo") "c1" (ObjectRef "B", None);
      fn_call (pods_matching "app=foo") (ObjectRef "B") None;
      list_call (pods_matching "app=foo") "c2" (ObjectRef "C", None);
      fn_call (pods_matching "app=foo") (ObjectRef "C") None]).
Proof.
  refine (proj1 (Visit_three_pages (pods_matching "app=foo") fn_note
            (ObjectRef "A") (ObjectRef "B") (ObjectRef "C")
            (script_state zero_Status three_pages) _ _ _ _ _ _
            _ _ _ _ _ _ _ _ _ 0%nat)); reflexivity.
Defined.

(** ** The error block *)

(** An error has one reason: one classified as bad request or as not found
    is not classified as expired. *)
Lemma not_expired_of_bad_request_or_not_found (h : Heap) (err : error) :
  IsBadRequest h err || IsNotFound h err = true -> IsResourceExpired h err = false.
Proof.
  unfold IsBadRequest, IsNotFound, IsResourceExpired.
  intros E. apply orb_true_iff in E.
  destruct E as [E|E]; apply String.eqb_eq in E; rewrite E; reflexivity.
Qed.

(** Reading the store after [se.ErrStatus = f(se.ErrStatus)]. *)
Lemma heap_lookup_alter (f : Status.t -> Status.t) (h : Heap) (se : loc) :
  alter f se h se = f (h se).
Proof. apply fn_lookup_alter. Qed.

Lemma heap_lookup_alter_ne (f : Status.t -> Status.t) (h : Heap) (se q : loc) :
  se <> q -> alter f se h q = h q.
Proof. apply fn_lookup_alter_ne. Qed.

Section ErrorBlock.

Context {World : Type} `{Collaborators World}.

Implicit Types (r : Selector.t) (fn : VisitorFunc World) (s : State World)
  (list : Object) (err : error).

Lemma Visit_list_error_expired r err s :
  IsResourceExpired (heap s) err = true -> Visit_list_error r err s = (err, s).
Proof. unfold Visit_list_error. intros ->. reflexivity. Qed.

Lemma Visit_list_error_other r err s :
  IsResourceExpired (heap s) err = false ->
  IsBadRequest (heap s) err = false ->
  IsNotFound (heap s) err = false ->
  Visit_list_error r err s = (err, s).
Proof. unfold Visit_list_error. intros -> -> ->. reflexivity. Qed.

Lemma Visit_list_error_status r se s :
  IsBadRequest (heap s) (StatusErrorPtr se) || IsNotFound (heap s) (StatusErrorPtr se) = true ->
  Visit_list_error r (StatusErrorPtr se) s =
    (StatusErrorPtr se,
     {| heap := alter (Status.set_Message
                         (Visit_message r (Status.Message (heap s se)))) se (heap s);
        world := world s |}).
Proof.
  intros E. unfold Visit_list_error, Visit_message.
  rewrite (not_expired_of_bad_request_or_not_found _ _ E), E.
  destruct (String.length (Selector.Selector r) =? 0)%nat; reflexivity.
Qed.

Lemma Visit_list_error_wrapped r err s :
  IsBadRequest (heap s) err || IsNotFound (heap s) err = true ->
  (forall se, err <> StatusErrorPtr se) ->
  Visit_list_error r err s = (PlainError (Visit_message r (Error (heap s) err)), s).
Proof.
  intros E N. unfold Visit_list_error, Visit_message.
  rewrite (not_expired_of_bad_request_or_not_found _ _ E), E.
  destruct err as [se|msg st|msg]; [destruct (N se); reflexivity| |];
    destruct (String.length (Selector.Selector r) =? 0)%nat; reflexivity.
Qed.

(** Whatever the error block returns, its text is the composed message
    around the text the error had, when the error is a bad request or a not
    found. *)
Lemma Visit_list_error_message r err s :
  IsBadRequest (heap s) err || IsNotFound (heap s) err = true ->
  Error (heap (snd (Visit_list_error r err s))) (fst (Visit_list_error r err s))
  = Visit_message r (Error (heap s) err).
Proof.
  intros E. destruct err as [se|msg st|msg].
  - rewrite Visit_list_error_status by exact E.
    cbn [fst snd heap Error]. rewrite heap_lookup_alter. reflexivity.
  - rewrite Visit_list_error_wrapped by (exact E || discriminate). reflexivity.
  - rewrite Visit_list_error_wrapped by (exact E || discriminate). reflexivity.
Qed.

End ErrorBlock.

(** ** Errors that end the traversal *)

Section Failures.

Context {World : Type} `{Collaborators World}.

Implicit Types (r : Selector.t) (fn : VisitorFunc World) (s : State World)
  (list : Object) (err : error).

(** C2.  When the visitor function returns an error for the first page,
    whatever cursor that page carries, [Visit] returns that very error, in
    the state the visitor function left, and the fetch of the first page is
    the only call of [List] it has made. *)
Theorem Visit_callback_error r fn s list s1 err s2 :
  fetch r "" s = ((list, None), s1) ->
  fn (Visit_info r list (resourceVersion_of r list)) None s1 = (Some err, s2) ->
  forall fuel,
    Visit (S fuel) r fn s =
      (Some (Some err), s2,
       [list_call r "" (list, None); fn_call r list (Some err)])
    /\ fetched (snd (Visit (S fuel) r fn s)) = [""].
Proof.
  intros Hl Hfn fuel. unfold Visit.
  rewrite (Visit_loop_page_abort _ _ _ _ _ _ _ _ _ Hl Hfn).
  split; reflexivity.
Qed.

(** C3.  When a fetch fails with an error classified as expired, the loop
    returns that error, the same value, and leaves the state as the fetch
    left it, so the status behind the error is untouched; the failed fetch
    is its only call.  This holds in every pass; in the first one [Visit]
    has called the visitor function not once. *)
Theorem Visit_expired r fn continueToken s list err s1 :
  fetch r continueToken s = ((list, Some err), s1) ->
  IsResourceExpired (heap s1) err = true ->
  forall fuel,
    Visit_loop (S fuel) r fn continueToken s =
      (Some (Some err), s1, [list_call r continueToken (list, Some err)])
    /\ (continueToken = "" ->
        Visit (S fuel) r fn s = (Some (Some err), s1, [list_call r "" (list, Some err)])
        /\ visited (snd (Visit (S fuel) r fn s)) = []).
Proof.
  intros Hl Hx fuel.
  assert (E : Visit_loop (S fuel) r fn continueToken s =
      (Some (Some err), s1, [list_call r continueToken (list, Some err)])).
  { rewrite (Visit_loop_failed _ _ _ _ _ _ _ _ Hl).
    rewrite (Visit_list_error_expired _ _ _ Hx). reflexivity. }
  split; [exact E|].
  intros ->. unfold Visit. rewrite E. split; reflexivity.
Qed.

(** C6.  When a fetch fails, the loop returns an error and has made no call
    after the failed one: no failure is swallowed, none is retried.  When the
    error is neither expired nor a bad request nor a not found, the error
    returned is the same value, and the state is as the fetch left it: no
    message has been rewritten. *)
Theorem Visit_other_error r fn continueToken s list err s1 :
  fetch r continueToken s = ((list, Some err), s1) ->
  forall fuel,
    (exists err' s2,
       Visit_loop (S fuel) r fn continueToken s =
         (Some (Some err'), s2, [list_call r continueToken (list, Some err)]))
    /\ (IsResourceExpired (heap s1) err = false ->
        IsBadRequest (heap s1) err = false ->
        IsNotFound (heap s1) err = false ->
        Visit_loop (S fuel) r fn continueToken s =
          (Some (Some err), s1, [list_call r continueToken (list, Some err)])).
Proof.
  intros Hl fuel. rewrite (Visit_loop_failed _ _ _ _ _ _ _ _ Hl). split.
  - eexists _, _. reflexivity.
  - intros Hx Hb Hn. rewrite (Visit_list_error_other _ _ _ Hx Hb Hn). reflexivity.
Qed.

End Failures.

Lemma Visit_callback_error_witness :
  Visit 1 (pods_matching "app=foo") fn_stop (script_state zero_Status three_pages)
  = (Some (Some (PlainError "stop")),
     {| heap := heap_with zero_Status;
        world := {| responses := [(ObjectRef "B", None); (ObjectRef "C", None)];
                    seen := [] |} |},
     [list_call (pods_matching "app=foo") "" (ObjectRef "A", None);
      fn_call (pods_matching "app=foo") (ObjectRef "A") (Some (PlainError "stop"))]).
Proof.
  refine (proj1 (Visit_callback_error (pods_matching "app=foo") fn_stop
            (script_state zero_Status three_pages) _ _ _ _ _ _ 0%nat)); reflexivity.
Defined.

Lemma Visit_expired_witness :
  Visit_loop 1 (pods_matching "app=foo") fn_note "c1"
    (script_state expired_Status [(ObjectRef "", Some (StatusErrorPtr 1))])
  = (Some (Some (StatusErrorPtr 1)),
     script_state expired_Status [],
     [list_call (pods_matching "app=foo") "c1" (ObjectRef "", Some (StatusErrorPtr 1))]).
Proof.
  refine (proj1 (Visit_expired (pods_matching "app=foo") fn_note "c1"
            (script_state expired_Status [(ObjectRef "", Some (StatusErrorPtr 1))])
            _ _ _ _ _ 0%nat)); reflexivity.
Defined.

Lemma Visit_other_error_witness :
  Visit_loop 1 (pods_matching "app=foo") fn_note ""
    (script_state zero_Status [(ObjectRef "", Some (PlainError "connection refused"))])
  = (Some (Some (PlainError "connection refused")),
     script_state zero_Status [],
     [list_call (pods_matching "app=foo") ""
        (ObjectRef "", Some (PlainError "connection refused"))]).
Proof.
  refine (proj2 (Visit_other_error (pods_matching "app=foo") fn_note ""
            (script_state zero_Status [(ObjectRef "", Some (PlainError "connection refused"))])
            _ _ _ _ 0%nat) _ _ _); reflexivity.
Defined.

(** ** The rewritten message *)

Lemma HasPrefix_spec (s p : string) :
  HasPrefix s p = true <-> exists post, s = p ++ post.
Proof.
  revert s. induction p as [|c p IH]; intros s; simpl.
  - split; [intros _; exists s; reflexivity | reflexivity].
  - destruct s as [|d s].
    + split; [discriminate | intros [post E]; discriminate E].
    + destruct (Ascii.eqb_spec c d) as [->|N].
      * rewrite IH. split; intros [post E]; exists post.
        -- rewrite E. reflexivity.
        -- injection E as E. exact E.
      * split; [discriminate | intros [post E]; injection E as E1 E2; congruence].
Qed.

Lemma Contains_spec (s sub : string) :
  Contains s sub = true <-> occurs_in sub s.
Proof.
  unfold occurs_in. induction s as [|d s IH].
  - simpl. rewrite orb_false_r, HasPrefix_spec. split.
    + intros [post E]. exists "", post. exact E.
    + intros [pre [post E]]. destruct pre; [exists post; exact E | discriminate E].
  - simpl. rewrite orb_true_iff, IH, HasPrefix_spec. split.
    + intros [[post E]|[pre [post E]]].
      * exists "", post. exact E.
      * exists (String d pre), post. rewrite E. reflexivity.
    + intros [pre [post E]]. destruct pre as [|c pre].
      * left. exists post. exact E.
      * right. injection E as _ E. exists pre, post. exact E.
Qed.

Lemma occurs_in_app (sub post : string) : occurs_in sub (sub ++ post).
Proof. exists "", post. reflexivity. Qed.

Section Rewriting.

Context {World : Type} `{Collaborators World}.

Implicit Types (r : Selector.t) (fn : VisitorFunc World) (s : State World)
  (list : Object) (err : error).

(** C4, as amended.  Let [%q] print pods and app=foo between double quotes,
    and let the resource of the mapping be pods.  When a fetch fails with an
    error classified as bad request or as not found, the loop returns an
    error whose text is, with the selector app=foo, [Unable to find "pods"
    that match the selector "app=foo": ] followed by the text the error had,
    and, with the empty selector, [Unable to list "pods": ] followed by the
    text the error had.  Both begin with a capital U. *)
Theorem Visit_selector_error_message r fn continueToken s list err s1 :
  Quote "pods" = dquote ++ "pods" ++ dquote ->
  Quote "app=foo" = dquote ++ "app=foo" ++ dquote ->
  RESTMapping.Resource (Selector.Mapping r) = "pods" ->
  fetch r continueToken s = ((list, Some err), s1) ->
  IsBadRequest (heap s1) err || IsNotFound (heap s1) err = true ->
  forall fuel,
    exists err' s2,
      Visit_loop (S fuel) r fn continueToken s =
        (Some (Some err'), s2, [list_call r continueToken (list, Some err)])
      /\ (Selector.Selector r = "app=foo" ->
          Error (heap s2) err' = Unable_to_find_pods ++ ": " ++ Error (heap s1) err
          /\ occurs_in Unable_to_find_pods (Error (heap s2) err'))
      /\ (Selector.Selector r = "" ->
          Error (heap s2) err' = Unable_to_list_pods ++ ": " ++ Error (heap s1) err
          /\ occurs_in Unable_to_list_pods (Error (heap s2) err')).
Proof.
  intros Qp Qs Hres Hl Hc fuel.
  rewrite (Visit_loop_failed _ _ _ _ _ _ _ _ Hl).
  eexists _, _. split; [reflexivity|].
  rewrite (Visit_list_error_message _ _ _ Hc).
  unfold Visit_message, Sprintf_Unable_to_find, Sprintf_Unable_to_list.
  rewrite Hres, Qp.
  split; intros Hsel; rewrite Hsel; simpl String.length; cbn [Nat.eqb].
  - rewrite Qs.
    assert (E : "Unable to find " ++ (dquote ++ "pods" ++ dquote) ++
                " that match the selector " ++ (dquote ++ "app=foo" ++ dquote) ++
                ": " ++ Error (heap s1) err
                = Unable_to_find_pods ++ ": " ++ Error (heap s1) err) by reflexivity.
    rewrite E. split; [reflexivity | apply occurs_in_app].
  - assert (E : "Unable to list " ++ (dquote ++ "pods" ++ dquote) ++
                ": " ++ Error (heap s1) err
                = Unable_to_list_pods ++ ": " ++ Error (heap s1) err) by reflexivity.
    rewrite E. split; [reflexivity | apply occurs_in_app].
Qed.


End Rewriting.

Lemma Visit_selector_error_message_witness :
  exists err' s2,
    Visit_loop 1 (pods_matching "app=foo") fn_note ""
      (script_state not_found_Status [(ObjectRef "", Some (StatusErrorPtr 1))])
    = (Some (Some err'), s2,
       [list_call (pods_matching "app=foo") "" (ObjectRef "", Some (StatusErrorPtr 1))])
    /\ (Selector.Selector (pods_matching "app=foo") = "app=foo" ->
        Error (heap s2) err'
        = Unable_to_find_pods ++ ": " ++
          Error (heap (script_state not_found_Status [])) (StatusErrorPtr 1)
        /\ occurs_in Unable_to_find_pods (Error (heap s2) err'))
    /\ (Selector.Selector (pods_matching "app=foo") = "" ->
        Error (heap s2) err'
        = Unable_to_list_pods ++ ": " ++
          Error (heap (script_state not_found_Status [])) (StatusErrorPtr 1)
        /\ occurs_in Unable_to_list_pods (Error (heap s2) err')).
Proof.
  refine (Visit_selector_error_message (pods_matching "app=foo") fn_note ""
            (script_state not_found_Status [(ObjectRef "", Some (StatusErrorPtr 1))])
            (ObjectRef "") (StatusErrorPtr 1) (script_state not_found_Status [])
            _ _ _ _ _ 0%nat); reflexivity.
Defined.

(** The claim with the small initial fails: for the selector app=foo and a
    not-found status the text [Visit] returns is the capitalised one, in
    which the quoted text does not occur. *)
Lemma Visit_message_small_initial_counterexample :
  IsNotFound (heap_with not_found_Status) (StatusErrorPtr 1) = true
  /\ fst (fst (Visit 1 (pods_matching "app=foo") fn_note
                 (script_state not_found_Status [(ObjectRef "", Some (StatusErrorPtr 1))])))
     = Some (Some (StatusErrorPtr 1))
  /\ Error (heap (snd (fst (Visit 1 (pods_matching "app=foo") fn_note
                 (script_state not_found_Status [(ObjectRef "", Some (StatusErrorPtr 1))])))))
       (StatusErrorPtr 1)
     = Unable_to_find_pods ++ ": the server could not find the requested resource"
  /\ ~ occurs_in unable_to_find_pods
         (Error (heap (snd (fst (Visit 1 (pods_matching "app=foo") fn_note
                 (script_state not_found_Status [(ObjectRef "", Some (StatusErrorPtr 1))])))))
            (StatusErrorPtr 1)).
Proof.
  split; [reflexivity|]. split; [reflexivity|]. split; [reflexivity|].
  intros Hocc. apply Contains_spec in Hocc. vm_compute in Hocc. discriminate Hocc.
Qed.


(** ** The shape of a run *)

Section Shape.

Context {World : Type} `{Collaborators World}.

Implicit Types (r : Selector.t) (fn : VisitorFunc World) (s : State World)
  (list : Object) (err : error).

(** Whatever the collaborators do and however many passes are allowed, the
    calls of the loop have the shape [visit_trace] describes. *)
Lemma Visit_loop_trace r fn fuel :
  forall continueToken s,
    visit_trace r continueToken (snd (Visit_loop fuel r fn continueToken s)).
Proof.
  induction fuel as [|fuel IH]; intros continueToken s.
  - apply vt_none.
  - destruct (fetch r continueToken s) as [[list [err|]] s1] eqn:Hl.
    + rewrite (Visit_loop_failed _ _ _ _ _ _ _ _ Hl). apply vt_failed.
    + destruct (fn (Visit_info r list (resourceVersion_of r list)) None s1)
        as [[err|] s2] eqn:Hfn.
      * rewrite (Visit_loop_page_abort _ _ _ _ _ _ _ _ _ Hl Hfn). apply vt_page.
      * destruct (string_dec (continue_of r list) "") as [Hc|Hc].
        -- rewrite (Visit_loop_page_last _ _ _ _ _ _ _ _ Hl Hfn Hc). apply vt_page.
        -- rewrite (Visit_loop_page_next _ _ _ _ _ _ _ _ Hl Hfn Hc).
           specialize (IH (continue_of r list) s2).
           destruct (Visit_loop fuel r fn (continue_of r list) s2) as [[res s3] evs].
           apply vt_next; assumption.
Qed.



End Shape.


(** ** Cursors, the accessor, and watching *)

Section Cursor.

Context {World : Type} `{Collaborators World}.

Implicit Types (r : Selector.t) (fn : VisitorFunc World) (s : State World)
  (list : Object) (err : error).

(** The first call of a loop that may make a pass is the fetch with the token
    it was entered with. *)
Lemma Visit_loop_first_call r fn continueToken s fuel :
  exists rest,
    snd (Visit_loop (S fuel) r fn continueToken s)
    = list_call r continueToken (fst (fetch r continueToken s)) :: rest.
Proof.
  destruct (fetch r continueToken s) as [[list [err|]] s1] eqn:Hl.
  - rewrite (Visit_loop_failed _ _ _ _ _ _ _ _ Hl). eexists. reflexivity.
  - destruct (fn (Visit_info r list (resourceVersion_of r list)) None s1)
      as [ret s2] eqn:Hfn.
    simpl. rewrite (Visit_body_page _ _ _ _ _ _ _ _ Hl Hfn).
    destruct ret as [err|]; [eexists; reflexivity|].
    destruct (String.length (continue_of r list) =? 0)%nat; [eexists; reflexivity|].
    destruct (Visit_loop fuel r fn (continue_of r list) s2) as [[res s3] evs].
    eexists. reflexivity.
Qed.

(** C8.  (1) The first call [Visit] makes is the fetch whose [Continue] option
    is the empty string.  For a page fetched with any token, whose callback
    returns nil: (2) when the cursor the accessor extracts from the page is
    not empty, the next call is the fetch whose [Continue] option is that
    cursor, the same string, made in the state the callback left; (3) when
    the cursor is empty, the loop returns nil after that callback; (4) so a
    first page with an empty cursor makes [Visit] return nil after one fetch
    and one callback. *)
Theorem Visit_cursor r fn continueToken s list s1 s2 :
  fetch r continueToken s = ((list, None), s1) ->
  fn (Visit_info r list (resourceVersion_of r list)) None s1 = (None, s2) ->
  forall fuel,
    (forall s0, exists rest,
       snd (Visit (S fuel) r fn s0) = list_call r "" (fst (fetch r "" s0)) :: rest
       /\ ListOptions.Continue (Visit_options r "") = "")
    /\ (continue_of r list <> "" ->
        exists rest,
          snd (Visit_loop (S (S fuel)) r fn continueToken s)
          = list_call r continueToken (list, None) :: fn_call r list None ::
            list_call r (continue_of r list) (fst (fetch r (continue_of r list) s2)) :: rest
          /\ ListOptions.Continue (Visit_options r (continue_of r list)) = continue_of r list)
    /\ (continue_of r list = "" ->
        Visit_loop (S fuel) r fn continueToken s
        = (Some None, s2, [list_call r continueToken (list, None); fn_call r list None]))
    /\ (continue_of r list = "" -> continueToken = "" ->
        Visit (S fuel) r fn s
        = (Some None, s2, [list_call r "" (list, None); fn_call r list None])
        /\ visited (snd (Visit (S fuel) r fn s)) = [list]
        /\ fetched (snd (Visit (S fuel) r fn s)) = [""]).
Proof.
  intros Hl Hfn fuel. split; [|split; [|split]].
  - intros s0. destruct (Visit_loop_first_call r fn "" s0 fuel) as [rest E].
    exists rest. split; [exact E | reflexivity].
  - intros Hc. rewrite (Visit_loop_page_next _ _ _ _ _ _ _ _ Hl Hfn Hc).
    destruct (Visit_loop_first_call r fn (continue_of r list) s2 fuel) as [rest E].
    destruct (Visit_loop (S fuel) r fn (continue_of r list) s2) as [[res s3] evs].
    simpl in E. subst evs. exists rest. split; reflexivity.
  - intros Hc. exact (Visit_loop_page_last _ _ _ _ _ _ _ _ Hl Hfn Hc).
  - intros Hc ->. unfold Visit.
    rewrite (Visit_loop_page_last _ _ _ _ _ _ _ _ Hl Hfn Hc).
    repeat split.
Qed.

(** C9.  For a page that was fetched, let the accessor return the resource
    version [rv] beside [erv] and the cursor [c] beside [ec], where [erv] and
    [ec] are any errors or nil.  The pass calls the visitor function with
    [rv] in the [Info], and ends as the result of that call and [c] say:
    [erv] and [ec] appear nowhere.  When both extractions fail, so that the
    strings are empty, and the callback returns nil, the loop returns nil,
    having passed an empty resource version. *)
Theorem Visit_accessor_errors_ignored r fn continueToken s list s1 rv erv c ec ret s2 :
  fetch r continueToken s = ((list, None), s1) ->
  MetadataAccessor.ResourceVersion
    (RESTMapping.MetadataAccessor (Selector.Mapping r)) list = (rv, erv) ->
  MetadataAccessor.Continue
    (RESTMapping.MetadataAccessor (Selector.Mapping r)) list = (c, ec) ->
  fn (Visit_info r list rv) None s1 = (ret, s2) ->
  Visit_body r fn continueToken s =
    (match ret with
     | Some err => Return (Some err)
     | None => if (String.length c =? 0)%nat then Return None else Next c
     end,
     s2,
     [list_call r continueToken (list, None); EvVisitorFunc (Visit_info r list rv) None ret])
  /\ (rv = "" -> c = "" -> ret = None ->
      forall fuel,
        Visit_loop (S fuel) r fn continueToken s =
          (Some None, s2,
           [list_call r continueToken (list, None);
            EvVisitorFunc (Visit_info r list "") None None])).
Proof.
  intros Hl Hrv Hc Hfn.
  assert (Erv : resourceVersion_of r list = rv) by (unfold resourceVersion_of; rewrite Hrv; reflexivity).
  assert (Ec : continue_of r list = c) by (unfold continue_of; rewrite Hc; reflexivity).
  rewrite <- Erv in Hfn.
  pose proof (Visit_body_page _ _ _ _ _ _ _ _ Hl Hfn) as E.
  unfold fn_call in E. rewrite Erv, Ec in E.
  split; [exact E|].
  intros -> -> -> fuel. apply Visit_loop_return. exact E.
Qed.


End Cursor.

(** A single page without a cursor. *)
Lemma Visit_cursor_witness :
  Visit 1 (pods_matching "") fn_note (script_state zero_Status [(ObjectRef "C", None)])
  = (Some None,
     {| heap := heap_with zero_Status;
        world := {| responses := []; seen := [ObjectRef "C"] |} |},
     [list_call (pods_matching "") "" (ObjectRef "C", None);
      fn_call (pods_matching "") (ObjectRef "C") None]).
Proof.
  refine (proj1 (proj2 (proj2 (proj2
            (Visit_cursor (pods_matching "") fn_note ""
               (script_state zero_Status [(ObjectRef "C", None)])
               (ObjectRef "C") _ _ _ _ 0%nat))) _ _)); reflexivity.
Defined.

(** A page from which the accessor can extract nothing. *)
Lemma Visit_accessor_errors_ignored_witness :
  Visit_loop 1 (pods_matching "") fn_note ""
    (script_state zero_Status [(ObjectRef "D", None)])
  = (Some None,
     {| heap := heap_with zero_Status;
        world := {| responses := []; seen := [ObjectRef "D"] |} |},
     [list_call (pods_matching "") "" (ObjectRef "D", None);
      EvVisitorFunc (Visit_info (pods_matching "") (ObjectRef "D") "") None None]).
Proof.
  refine (proj2 (Visit_accessor_errors_ignored (pods_matching "") fn_note ""
                   (script_state zero_Status [(ObjectRef "D", None)])
                   (ObjectRef "D") _ ""
                   (Some (PlainError "object does not implement the List interfaces"))
                   ""
                   (Some (PlainError "object does not implement the List interfaces"))
                   None _ _ _ _ _) _ _ _ 0%nat); reflexivity.
Defined.

(** ** What every run has in common *)

Section Runs.

Context {World : Type} `{Collaborators World}.

Implicit Types (r : Selector.t) (fn : VisitorFunc World) (s : State World)
  (list : Object) (err : error).

Lemma visit_trace_list_calls r continueToken tr :
  visit_trace r continueToken tr ->
  forall i ev, tr !! i = Some ev ->
    (exists token ret, ev = list_call r token ret)
    \/ (exists list ret, ev = fn_call r list ret).
Proof.
  induction 1 as [tok|tok list e|tok list ret0|tok list rest Hc Hrest IH]; intros i ev Hi.
  - discriminate Hi.
  - destruct i as [|[|i]]; try discriminate Hi. injection Hi as <-. left. eauto.
  - destruct i as [|[|[|i]]]; try discriminate Hi; injection Hi as <-; [left|right]; eauto.
  - destruct i as [|[|i]].
    + injection Hi as <-. left. eauto.
    + injection Hi as <-. right. eauto.
    + exact (IH i ev Hi).
Qed.

(** Every call of [List] in a run, however long, has the client, the mapping,
    the namespace and the export flag of the selector, the group and version
    of its mapping, and options with its label selector, its
    include-uninitialized flag and its chunk limit: only [Continue] changes
    from one fetch to the next.  [Visit] never calls [Watch]. *)
Theorem Visit_list_arguments r fn s fuel i ev :
  snd (Visit fuel r fn s) !! i = Some ev ->
  match ev with
  | EvList client mapping namespace apiVersion export options _ =>
      client = Selector.Client r
      /\ mapping = Selector.Mapping r
      /\ namespace = Selector.Namespace r
      /\ apiVersion = GroupVersionString (RESTMapping.GroupVersionKind (Selector.Mapping r))
      /\ export = Selector.Export r
      /\ ListOptions.LabelSelector options = Selector.Selector r
      /\ ListOptions.IncludeUninitialized options = Selector.IncludeUninitialized r
      /\ ListOptions.Limit options = Selector.LimitChunks r
  | EvVisitorFunc _ _ _ => True
  | EvWatch _ _ _ _ _ _ _ => False
  end.
Proof.
  intros Hi.
  destruct (visit_trace_list_calls r "" _ (Visit_loop_trace r fn fuel "" s) _ _ Hi)
    as [[token [ret ->]]|[list [ret ->]]]; simpl; repeat split.
Qed.

Lemma visit_trace_counts r continueToken tr :
  visit_trace r continueToken tr ->
  (length (visited tr) <= length (fetched tr) <= S (length (visited tr)))%nat.
Proof.
  induction 1 as [tok|tok list e|tok list ret0|tok list rest Hc Hrest IH]; simpl; lia.
Qed.

(** In every run there are as many callbacks as fetches, or one fewer: no
    page is handed over twice, and at most one fetch (a failed one, or the one
    whose callback has yet to run) has no callback. *)
Theorem Visit_one_callback_per_fetch r fn s fuel :
  (length (visited (snd (Visit fuel r fn s)))
   <= length (fetched (snd (Visit fuel r fn s)))
   <= S (length (visited (snd (Visit fuel r fn s)))))%nat.
Proof. apply (visit_trace_counts r ""), Visit_loop_trace. Qed.

Lemma visit_trace_tokens r continueToken tr :
  visit_trace r continueToken tr ->
  tr = [] \/
  (fetched tr
   = continueToken ::
     map (continue_of r) (take (length (fetched tr) - 1) (visited tr))
   /\ Forall (fun c => c <> "") (tail (fetched tr))).
Proof.
  induction 1 as [tok|tok list e|tok list ret0|tok list rest Hc Hrest IH].
  - left. reflexivity.
  - right. simpl. split; [reflexivity | constructor].
  - right. simpl. split; [reflexivity | constructor].
  - right. destruct IH as [->|[IH1 IH2]].
    + simpl. split; [reflexivity | constructor].
    + cbn [fetched visited list_call fn_call Info.Object Visit_info tail].
      cbn [ListOptions.Continue Visit_options].
      rewrite IH1 at 1. split.
      * f_equal.
        replace (length (tok :: fetched rest) - 1)%nat
          with (S (length (fetched rest) - 1)).
        -- reflexivity.
        -- rewrite IH1. simpl. lia.
      * rewrite IH1. constructor; [exact Hc|]. rewrite IH1 in IH2. exact IH2.
Qed.

(** The tokens of the fetches of a run, in order: the empty string, then the
    cursor of each page visited, as the accessor extracted it.  No fetch
    after the first has an empty token: [Visit] never starts over. *)
Theorem Visit_tokens r fn s fuel :
  fetched (snd (Visit (S fuel) r fn s))
  = "" :: map (continue_of r)
            (take (length (fetched (snd (Visit (S fuel) r fn s))) - 1)
               (visited (snd (Visit (S fuel) r fn s))))
  /\ Forall (fun c => c <> "") (tail (fetched (snd (Visit (S fuel) r fn s)))).
Proof.
  destruct (visit_trace_tokens r "" _ (Visit_loop_trace r fn (S fuel) "" s)) as [E|E].
  - destruct (Visit_loop_first_call r fn "" s fuel) as [rest E'].
    unfold Visit in E. rewrite E' in E. discriminate E.
  - exact E.
Qed.

End Runs.

(** ** Traversals of any length *)

Section Lengths.

Context {World : Type} `{Collaborators World}.

Implicit Types (r : Selector.t) (fn : VisitorFunc World) (s : State World)
  (list : Object) (err : error).

Lemma serves_nonempty r fn continueToken s pages s' :
  serves r fn continueToken s pages s' -> pages <> [].
Proof. destruct 1; discriminate. Qed.

Lemma Visit_loop_serves r fn continueToken s pages s' :
  serves r fn continueToken s pages s' ->
  (forall fuel,
     exists tr,
       Visit_loop (length pages + fuel) r fn continueToken s = (Some None, s', tr)
       /\ visited tr = pages
       /\ fetched tr = continueToken :: map (continue_of r) (removelast pages)
       /\ length tr = (2 * length pages)%nat)
  /\ (forall n, (n < length pages)%nat ->
        fst (fst (Visit_loop n r fn continueToken s)) = None).
Proof.
  induction 1 as [tok s list s1 s2 Hl Hfn Hc
                 |tok s list s1 s2 pages s3 Hl Hfn Hc Hrest [IH1 IH2]].
  - split.
    + intros fuel. eexists. split.
      * exact (Visit_loop_page_last _ _ _ _ _ _ _ _ Hl Hfn Hc).
      * repeat split.
    + intros n Hn. simpl in Hn. assert (n = 0%nat) as -> by lia. reflexivity.
  - split.
    + intros fuel. destruct (IH1 fuel) as [tr [E [Hv [Hf Hlen]]]].
      change (length (list :: pages) + fuel)%nat with (S (length pages + fuel)).
      rewrite (Visit_loop_page_next _ _ _ _ _ _ _ _ Hl Hfn Hc), E.
      eexists. split; [reflexivity|].
      cbn [visited fetched list_call fn_call Visit_info Info.Object
           ListOptions.Continue Visit_options].
      rewrite Hv, Hf. repeat split.
      * pose proof (serves_nonempty _ _ _ _ _ _ Hrest) as Hne.
        destruct pages as [|p pages]; [congruence | reflexivity].
      * simpl. simpl in Hlen. lia.
    + intros [|n] Hn; [reflexivity|].
      rewrite (Visit_loop_page_next _ _ _ _ _ _ _ _ Hl Hfn Hc).
      assert (Hn' : (n < length pages)%nat) by (simpl in Hn; lia).
      specialize (IH2 n Hn').
      destruct (Visit_loop n r fn (continue_of r list) s2) as [[res s4] evs].
      exact IH2.
Qed.

(** A full traversal of any length.  When the collaborator serves the pages
    [pages] to a visitor function that returns nil for each, [Visit] returns
    nil once it may make as many passes as there are pages, and not before;
    it has then visited exactly those pages, in order, with two calls per
    page, and fetched each with the cursor of the page before it. *)
Theorem Visit_serves r fn s pages s' :
  serves r fn "" s pages s' ->
  (forall fuel,
     exists tr,
       Visit (length pages + fuel) r fn s = (Some None, s', tr)
       /\ visited tr = pages
       /\ fetched tr = "" :: map (continue_of r) (removelast pages)
       /\ length tr = (2 * length pages)%nat)
  /\ (forall n, (n < length pages)%nat -> fst (fst (Visit n r fn s)) = None).
Proof. apply Visit_loop_serves. Qed.

Lemma Visit_loop_endless r fn :
  (forall continueToken s,
     exists list s1 s2,
       fetch r continueToken s = ((list, None), s1)
       /\ fn (Visit_info r list (resourceVersion_of r list)) None s1 = (None, s2)
       /\ continue_of r list <> "") ->
  forall fuel continueToken s,
    fst (fst (Visit_loop fuel r fn continueToken s)) = None
    /\ length (fetched (snd (Visit_loop fuel r fn continueToken s))) = fuel
    /\ length (visited (snd (Visit_loop fuel r fn continueToken s))) = fuel.
Proof.
  intros Hall. induction fuel as [|fuel IH]; intros tok s.
  - repeat split.
  - destruct (Hall tok s) as [list [s1 [s2 [Hl [Hfn Hc]]]]].
    rewrite (Visit_loop_page_next _ _ _ _ _ _ _ _ Hl Hfn Hc).
    specialize (IH (continue_of r list) s2).
    destruct (Visit_loop fuel r fn (continue_of r list) s2) as [[res s3] evs].
    simpl in *. destruct IH as [-> [-> ->]]. repeat split.
Qed.

(** [Visit] has no bound of its own.  With a collaborator that answers every
    fetch with a page that has a cursor, and a visitor function that always
    returns nil, [Visit] has not returned after any number of passes, and has
    made one fetch and one callback in each. *)
Theorem Visit_endless r fn :
  (forall continueToken s,
     exists list s1 s2,
       fetch r continueToken s = ((list, None), s1)
       /\ fn (Visit_info r list (resourceVersion_of r list)) None s1 = (None, s2)
       /\ continue_of r list <> "") ->
  forall fuel s,
    fst (fst (Visit fuel r fn s)) = None
    /\ length (fetched (snd (Visit fuel r fn s))) = fuel
    /\ length (visited (snd (Visit fuel r fn s))) = fuel.
Proof. intros Hall fuel s. apply Visit_loop_endless. exact Hall. Qed.

Lemma Visit_loop_return_cause r fn fuel :
  forall continueToken s res,
    fst (fst (Visit_loop fuel r fn continueToken s)) = Some res ->
    exists tr' token list,
      (snd (Visit_loop fuel r fn continueToken s)
       = (tr' ++ [list_call r token (list, None); fn_call r list res])%list
       /\ (res = None -> continue_of r list = ""))
      \/ (exists err0, snd (Visit_loop fuel r fn continueToken s)
                       = (tr' ++ [list_call r token (list, Some err0)])%list
                       /\ res <> None).
Proof.
  induction fuel as [|fuel IH]; intros tok s res Hres.
  - discriminate Hres.
  - destruct (fetch r tok s) as [[list [err|]] s1] eqn:Hl.
    + rewrite (Visit_loop_failed _ _ _ _ _ _ _ _ Hl) in Hres |- *.
      simpl in Hres. injection Hres as <-.
      exists [], tok, list. right. exists err. split; [reflexivity | discriminate].
    + destruct (fn (Visit_info r list (resourceVersion_of r list)) None s1)
        as [[err|] s2] eqn:Hfn.
      * rewrite (Visit_loop_page_abort _ _ _ _ _ _ _ _ _ Hl Hfn) in Hres |- *.
        simpl in Hres. injection Hres as <-.
        exists [], tok, list. left. split; [reflexivity | discriminate].
      * destruct (string_dec (continue_of r list) "") as [Hc|Hc].
        -- rewrite (Visit_loop_page_last _ _ _ _ _ _ _ _ Hl Hfn Hc) in Hres |- *.
           simpl in Hres. injection Hres as <-.
           exists [], tok, list. left. split; [reflexivity | intros _; exact Hc].
        -- rewrite (Visit_loop_page_next _ _ _ _ _ _ _ _ Hl Hfn Hc) in Hres |- *.
           specialize (IH (continue_of r list) s2 res).
           destruct (Visit_loop fuel r fn (continue_of r list) s2) as [[res' s3] evs].
           simpl in Hres, IH |- *.
           destruct (IH Hres) as [tr' [token [l [[E Hn]|[err0 [E Hn]]]]]].
           ++ exists (list_call r tok (list, None) :: fn_call r list None :: tr'), token, l.
              left. rewrite E. split; [reflexivity | exact Hn].
           ++ exists (list_call r tok (list, None) :: fn_call r list None :: tr'), token, l.
              right. exists err0. rewrite E. split; [reflexivity | exact Hn].
Qed.

(** Why [Visit] returned.  When [Visit] has returned [res], its last call is
    either a callback that returned [res], and when [res] is nil the page of
    that callback has no cursor; or a fetch that failed, and then [res] is
    not nil. *)
Theorem Visit_return_cause r fn s fuel res :
  fst (fst (Visit fuel r fn s)) = Some res ->
  exists tr' token list,
    (snd (Visit fuel r fn s)
     = (tr' ++ [list_call r token (list, None); fn_call r list res])%list
     /\ (res = None -> continue_of r list = ""))
    \/ (exists err0, snd (Visit fuel r fn s)
                     = (tr' ++ [list_call r token (list, Some err0)])%list
                     /\ res <> None).
Proof. apply Visit_loop_return_cause. Qed.

End Lengths.

(** The second fetch of the run over the pages A, B and C. *)
Lemma Visit_list_arguments_witness :
  RESTClientRef "client" = Selector.Client (pods_matching "app=foo")
  /\ pods = Selector.Mapping (pods_matching "app=foo")
  /\ "default" = Selector.Namespace (pods_matching "app=foo")
  /\ "v1" = script_GroupVersionString
              (RESTMapping.GroupVersionKind (Selector.Mapping (pods_matching "app=foo")))
  /\ false = Selector.Export (pods_matching "app=foo")
  /\ ListOptions.LabelSelector (Visit_options (pods_matching "app=foo") "c1")
     = Selector.Selector (pods_matching "app=foo")
  /\ ListOptions.IncludeUninitialized (Visit_options (pods_matching "app=foo") "c1")
     = Selector.IncludeUninitialized (pods_matching "app=foo")
  /\ ListOptions.Limit (Visit_options (pods_matching "app=foo") "c1")
     = Selector.LimitChunks (pods_matching "app=foo").
Proof.
  exact (Visit_list_arguments (pods_matching "app=foo") fn_note
           (script_state zero_Status three_pages) 3 2
           (list_call (pods_matching "app=foo") "c1" (ObjectRef "B", None))
           eq_refl).
Defined.

Lemma serves_three_pages :
  serves (pods_matching "app=foo") fn_note "" (script_state zero_Status three_pages)
    [ObjectRef "A"; ObjectRef "B"; ObjectRef "C"]
    {| heap := heap_with zero_Status;
       world := {| responses := [];
                   seen := [ObjectRef "A"; ObjectRef "B"; ObjectRef "C"] |} |}.
Proof.
  eapply serves_more; [reflexivity | reflexivity | discriminate |].
  eapply serves_more; [reflexivity | reflexivity | discriminate |].
  eapply serves_last; reflexivity.
Defined.

Lemma Visit_serves_witness :
  exists tr,
    Visit 3 (pods_matching "app=foo") fn_note (script_state zero_Status three_pages)
    = (Some None,
       {| heap := heap_with zero_Status;
          world := {| responses := [];
                      seen := [ObjectRef "A"; ObjectRef "B"; ObjectRef "C"] |} |},
       tr)
    /\ visited tr = [ObjectRef "A"; ObjectRef "B"; ObjectRef "C"]
    /\ fetched tr = [""; "c1"; "c2"]
    /\ length tr = 6%nat.
Proof.
  exact (proj1 (Visit_serves (pods_matching "app=foo") fn_note
                  (script_state zero_Status three_pages) _ _ serves_three_pages) 0%nat).
Defined.

Lemma Visit_endless_witness :
  fst (fst (Visit (H := endless) 50 (pods_matching "") fn_note (script_state zero_Status [])))
  = None
  /\ length (fetched (snd (Visit (H := endless) 50 (pods_matching "") fn_note
                            (script_state zero_Status [])))) = 50%nat
  /\ length (visited (snd (Visit (H := endless) 50 (pods_matching "") fn_note
                            (script_state zero_Status [])))) = 50%nat.
Proof.
  apply (Visit_endless (H := endless) (pods_matching "") fn_note).
  intros continueToken s.
  exists (ObjectRef "A"), s, (snd (fn_note (Visit_info (pods_matching "") (ObjectRef "A") "7") None s)).
  split; [reflexivity|]. split; [reflexivity | discriminate].
Defined.

Lemma Visit_return_cause_witness :
  exists tr' token list,
    (snd (Visit 3 (pods_matching "app=foo") fn_note (script_state zero_Status three_pages))
     = (tr' ++ [list_call (pods_matching "app=foo") token (list, None);
                fn_call (pods_matching "app=foo") list None])%list
     /\ (@None error = None -> continue_of (pods_matching "app=foo") list = ""))
    \/ (exists err0,
          snd (Visit 3 (pods_matching "app=foo") fn_note (script_state zero_Status three_pages))
          = (tr' ++ [list_call (pods_matching "app=foo") token (list, Some err0)])%list
          /\ @None error <> None).
Proof.
  exact (Visit_return_cause (pods_matching "app=foo") fn_note
           (script_state zero_Status three_pages) 3 None eq_refl).
Defined.

(** ** More on the error block, the constructor and [Watch] *)

Section ErrorsAndWatch.

Context {World : Type} `{Collaborators World}.

Implicit Types (r : Selector.t) (fn : VisitorFunc World) (s : State World)
  (list : Object) (err : error).

(** The message for any resource and any selector.  When a fetch fails with
    an error classified as bad request or as not found, the error the loop
    returns reads [Unable to list Q: T] when the selector is empty and
    [Unable to find Q that match the selector S: T] otherwise, where [Q] and
    [S] are the resource and the selector as [%q] prints them and [T] is the
    text the error had. *)
Theorem Visit_rewrites_message r fn continueToken s list err s1 :
  fetch r continueToken s = ((list, Some err), s1) ->
  IsBadRequest (heap s1) err || IsNotFound (heap s1) err = true ->
  forall fuel,
    exists err' s2,
      Visit_loop (S fuel) r fn continueToken s =
        (Some (Some err'), s2, [list_call r continueToken (list, Some err)])
      /\ Error (heap s2) err' =
           (if (String.length (Selector.Selector r) =? 0)%nat
            then "Unable to list " ++ Quote (RESTMapping.Resource (Selector.Mapping r)) ++
                 ": " ++ Error (heap s1) err
            else "Unable to find " ++ Quote (RESTMapping.Resource (Selector.Mapping r)) ++
                 " that match the selector " ++ Quote (Selector.Selector r) ++
                 ": " ++ Error (heap s1) err).
Proof.
  intros Hl Hc fuel.
  rewrite (Visit_loop_failed _ _ _ _ _ _ _ _ Hl).
  eexists _, _. split; [reflexivity|].
  apply (Visit_list_error_message _ _ _ Hc).
Qed.

(** An error that is not a [*StatusError] but has a status with the reason
    bad request or not found comes back as a new error that carries the
    composed text only: the status is gone, and the error returned is
    classified neither as bad request nor as not found nor as expired.  The
    state is as the fetch left it. *)
Theorem Visit_wraps_foreign_error r fn continueToken s list msg status s1 :
  fetch r continueToken s = ((list, Some (APIStatusError msg status)), s1) ->
  Status.Reason status = StatusReasonBadRequest
  \/ Status.Reason status = StatusReasonNotFound ->
  forall fuel,
    Visit_loop (S fuel) r fn continueToken s =
      (Some (Some (PlainError (Visit_message r msg))), s1,
       [list_call r continueToken (list, Some (APIStatusError msg status))])
    /\ IsBadRequest (heap s1) (PlainError (Visit_message r msg)) = false
    /\ IsNotFound (heap s1) (PlainError (Visit_message r msg)) = false
    /\ IsResourceExpired (heap s1) (PlainError (Visit_message r msg)) = false.
Proof.
  intros Hl Hreason fuel.
  rewrite (Visit_loop_failed _ _ _ _ _ _ _ _ Hl).
  rewrite Visit_list_error_wrapped.
  - repeat split.
  - unfold IsBadRequest, IsNotFound, ReasonForError.
    destruct Hreason as [-> | ->]; reflexivity.
  - discriminate.
Qed.

(** The rewrite adds up.  [Visit] writes the message into the
    [StatusError] itself; when a second call of [Visit] on the same selector
    is answered with the same [*StatusError], whose status the collaborator
    has left as it was, the message of that status is composed around the
    message composed the first time. *)
Theorem Visit_rewrites_twice r fn fn' s list se s1 s2 fuel list' s3 s4 fuel' :
  fetch r "" s = ((list, Some (StatusErrorPtr se)), s1) ->
  IsBadRequest (heap s1) (StatusErrorPtr se) || IsNotFound (heap s1) (StatusErrorPtr se) = true ->
  snd (fst (Visit (S fuel) r fn s)) = s2 ->
  fetch r "" s2 = ((list', Some (StatusErrorPtr se)), s3) ->
  heap s3 se = heap s2 se ->
  snd (fst (Visit (S fuel') r fn' s2)) = s4 ->
  fst (fst (Visit (S fuel') r fn' s2)) = Some (Some (StatusErrorPtr se))
  /\ Error (heap s4) (StatusErrorPtr se)
     = Visit_message r (Visit_message r (Status.Message (heap s1 se))).
Proof.
  unfold Visit. intros Hl Hc Hs2 Hl' Hh Hs4.
  rewrite (Visit_loop_failed _ _ _ _ _ _ _ _ Hl) in Hs2.
  rewrite (Visit_list_error_status _ _ _ Hc) in Hs2. cbn [fst snd] in Hs2.
  assert (Hm : Status.Message (heap s2 se) = Visit_message r (Status.Message (heap s1 se))).
  { rewrite <- Hs2. cbn [heap]. rewrite heap_lookup_alter. reflexivity. }
  assert (Hr : Status.Reason (heap s2 se) = Status.Reason (heap s1 se)).
  { rewrite <- Hs2. cbn [heap]. rewrite heap_lookup_alter. reflexivity. }
  assert (Hc' : IsBadRequest (heap s3) (StatusErrorPtr se)
                || IsNotFound (heap s3) (StatusErrorPtr se) = true).
  { unfold IsBadRequest, IsNotFound, ReasonForError in Hc |- *.
    rewrite Hh, Hr. exact Hc. }
  rewrite (Visit_loop_failed _ _ _ _ _ _ _ _ Hl') in Hs4 |- *.
  rewrite (Visit_list_error_status _ _ _ Hc') in Hs4 |- *. cbn [fst snd] in Hs4 |- *.
  split; [reflexivity|].
  rewrite <- Hs4. cbn [Error heap]. rewrite heap_lookup_alter.
  cbn [Status.set_Message Status.Message]. rewrite Hh, Hm. reflexivity.
Qed.

(** [Watch] uses the client, the mapping, the namespace and the label
    selector of the selector and nothing else: two selectors that agree on
    these watch alike, whatever their export flag, include-uninitialized flag
    and chunk limit. *)
Theorem Watch_ignores_list_fields r r' (resourceVersion : string) s :
  Selector.Client r = Selector.Client r' ->
  Selector.Mapping r = Selector.Mapping r' ->
  Selector.Namespace r = Selector.Namespace r' ->
  Selector.Selector r = Selector.Selector r' ->
  Watch r resourceVersion s = Watch r' resourceVersion s.
Proof.
  unfold Watch, ResourceMapping. intros -> -> -> ->. reflexivity.
Qed.

(** From the constructor to the first request.  [Visit] on
    [NewSelector(client, mapping, namespace, selector, export,
    includeUninitialized, limitChunks)] begins with the call of [List] on the
    helper of [client] and [mapping], with [namespace], the group and version
    of [mapping], [export], and the options [selector],
    [includeUninitialized], [limitChunks] and an empty [Continue]; and
    [ResourceMapping] gives back [mapping]. *)
Theorem NewSelector_first_fetch client mapping (namespace selector : string)
    (export includeUninitialized : bool) (limitChunks : Z) fn s fuel :
  ResourceMapping
    (NewSelector client mapping namespace selector export includeUninitialized limitChunks)
  = mapping
  /\ exists rest,
       snd (Visit (S fuel)
              (NewSelector client mapping namespace selector export
                 includeUninitialized limitChunks) fn s)
       = EvList client mapping namespace
           (GroupVersionString (RESTMapping.GroupVersionKind mapping)) export
           {| ListOptions.LabelSelector := selector;
              ListOptions.IncludeUninitialized := includeUninitialized;
              ListOptions.Limit := limitChunks;
              ListOptions.Continue := "" |}
           (fst (HelperList client mapping namespace
                   (GroupVersionString (RESTMapping.GroupVersionKind mapping)) export
                   {| ListOptions.LabelSelector := selector;
                      ListOptions.IncludeUninitialized := includeUninitialized;
                      ListOptions.Limit := limitChunks;
                      ListOptions.Continue := "" |} s))
         :: rest.
Proof.
  split; [reflexivity|].
  destruct (Visit_loop_first_call
              (NewSelector client mapping namespace selector export
                 includeUninitialized limitChunks) fn "" s fuel) as [rest E].
  exists rest. exact E.
Qed.

End ErrorsAndWatch.

Lemma Visit_rewrites_message_witness :
  exists err' s2,
    Visit_loop 1 (pods_matching "env=prod") fn_note "c1"
      (script_state bad_request_Status [(ObjectRef "", Some (StatusErrorPtr 1))])
    = (Some (Some err'), s2,
       [list_call (pods_matching "env=prod") "c1" (ObjectRef "", Some (StatusErrorPtr 1))])
    /\ Error (heap s2) err'
       = "Unable to find " ++ dquote ++ "pods" ++ dquote ++ " that match the selector " ++
         dquote ++ "env=prod" ++ dquote ++ ": unable to parse requirement".
Proof.
  refine (Visit_rewrites_message (pods_matching "env=prod") fn_note "c1"
            (script_state bad_request_Status [(ObjectRef "", Some (StatusErrorPtr 1))])
            (ObjectRef "") (StatusErrorPtr 1) (script_state bad_request_Status [])
            _ _ 0%nat); reflexivity.
Defined.

Lemma Visit_wraps_foreign_error_witness :
  Visit_loop 1 (pods_matching "") fn_note ""
    (script_state zero_Status [(ObjectRef "", Some foreign_not_found)])
  = (Some (Some (PlainError (Unable_to_list_pods ++ ": no such resource"))),
     script_state zero_Status [],
     [list_call (pods_matching "") "" (ObjectRef "", Some foreign_not_found)]).
Proof.
  refine (proj1 (Visit_wraps_foreign_error (pods_matching "") fn_note ""
                   (script_state zero_Status [(ObjectRef "", Some foreign_not_found)])
                   (ObjectRef "") "no such resource" not_found_Status
                   (script_state zero_Status []) _ _ 0%nat));
    [reflexivity | right; reflexivity].
Defined.

(** Two calls of [Visit] answered with the [StatusError] at address 1. *)
Lemma Visit_rewrites_twice_witness :
  Error
    (heap (snd (fst (Visit 1 (pods_matching "") fn_note
                       (snd (fst (Visit 1 (pods_matching "") fn_note
                                    (script_state not_found_Status
                                       [(ObjectRef "", Some (StatusErrorPtr 1));
                                        (ObjectRef "", Some (StatusErrorPtr 1))]))))))))
    (StatusErrorPtr 1)
  = Unable_to_list_pods ++ ": " ++ Unable_to_list_pods ++
    ": the server could not find the requested resource".
Proof.
  refine (proj2 (Visit_rewrites_twice (pods_matching "") fn_note fn_note
                   (script_state not_found_Status
                      [(ObjectRef "", Some (StatusErrorPtr 1));
                       (ObjectRef "", Some (StatusErrorPtr 1))])
                   (ObjectRef "") 1%nat
                   (script_state not_found_Status [(ObjectRef "", Some (StatusErrorPtr 1))])
                   _ 0%nat (ObjectRef "") _ _ 0%nat _ _ _ _ _ _)); reflexivity.
Defined.

Lemma Watch_ignores_list_fields_witness :
  Watch (NewSelector (RESTClientRef "client") pods "default" "app=foo" true true 0) "100"
    (script_state zero_Status [])
  = Watch (pods_matching "app=foo") "100" (script_state zero_Status []).
Proof.
  refine (Watch_ignores_list_fields
            (NewSelector (RESTClientRef "client") pods "default" "app=foo" true true 0)
            (pods_matching "app=foo") "100" (script_state zero_Status []) _ _ _ _);
    reflexivity.
Defined.

(** ** The bound on the passes *)

Section Bound.

Context {World : Type} `{Collaborators World}.

Implicit Types (r : Selector.t) (fn : VisitorFunc World) (s : State World).

(** Once the loop has returned, allowing it more passes changes nothing:
    neither what it returns, nor the state, nor the calls. *)
Lemma Visit_loop_more_passes r fn fuel :
  forall continueToken s res,
    fst (fst (Visit_loop fuel r fn continueToken s)) = Some res ->
    forall more,
      Visit_loop (fuel + more) r fn continueToken s = Visit_loop fuel r fn continueToken s.
Proof.
  induction fuel as [|fuel IH]; intros tok s res Hres more.
  - discriminate Hres.
  - simpl in Hres |- *.
    destruct (Visit_body r fn tok s) as [[[ret|next] s1] evs]; [reflexivity|].
    specialize (IH next s1 res).
    destruct (Visit_loop fuel r fn next s1) as [[res' s2] evs'] eqn:E.
    simpl in Hres. rewrite (IH Hres more). reflexivity.
Qed.

End Bound.

(** ** What a failed fetch leaves behind *)

Section Frame.

Context {World : Type} `{Collaborators World}.

Implicit Types (r : Selector.t) (fn : VisitorFunc World) (s : State World)
  (list : Object) (err : error).

Lemma Visit_list_error_frame r err s :
  world (snd (Visit_list_error r err s)) = world s
  /\ forall q,
       Status.set_Message "" (heap (snd (Visit_list_error r err s)) q)
       = Status.set_Message "" (heap s q)
       /\ (err <> StatusErrorPtr q -> heap (snd (Visit_list_error r err s)) q = heap s q).
Proof.
  assert (Same : forall e : error, world (snd (e, s)) = world s
            /\ forall q, Status.set_Message "" (heap (snd (e, s)) q)
                          = Status.set_Message "" (heap s q)
                          /\ (err <> StatusErrorPtr q -> heap (snd (e, s)) q = heap s q)).
  { intros e. split; [reflexivity|]. intros q. split; [reflexivity|]. intros _. reflexivity. }
  unfold Visit_list_error.
  destruct (IsResourceExpired (heap s) err); [apply Same|].
  destruct (IsBadRequest (heap s) err || IsNotFound (heap s) err); [|apply Same].
  destruct err as [se|msg st|msg];
    try (destruct (String.length (Selector.Selector r) =? 0)%nat; apply Same).
  cbn [snd heap world]. split; [reflexivity|]. intros q.
  destruct (Nat.eq_dec se q) as [->|Hne].
  - rewrite heap_lookup_alter. split; [reflexivity|]. congruence.
  - rewrite heap_lookup_alter_ne by exact Hne. split; reflexivity.
Qed.

(** Whatever the error of a failed fetch is, the loop returns in a state
    that differs from the one the fetch left in the message of a status at
    most, and only at the address of the error when it is a [*StatusError]:
    all other statuses and all else of the state are as they were. *)
Theorem Visit_writes_only_the_message r fn continueToken s list err s1 :
  fetch r continueToken s = ((list, Some err), s1) ->
  forall fuel,
    world (snd (fst (Visit_loop (S fuel) r fn continueToken s))) = world s1
    /\ forall q,
         Status.set_Message "" (heap (snd (fst (Visit_loop (S fuel) r fn continueToken s))) q)
         = Status.set_Message "" (heap s1 q)
         /\ (err <> StatusErrorPtr q ->
             heap (snd (fst (Visit_loop (S fuel) r fn continueToken s))) q = heap s1 q).
Proof.
  intros Hl fuel. rewrite (Visit_loop_failed _ _ _ _ _ _ _ _ Hl). cbn [fst snd].
  apply Visit_list_error_frame.
Qed.

End Frame.

Lemma Visit_writes_only_the_message_witness :
  world (snd (fst (Visit_loop 1 (pods_matching "app=foo") fn_note ""
                     (script_state not_found_Status
                        [(ObjectRef "", Some (StatusErrorPtr 1))]))))
  = {| responses := []; seen := [] |}.
Proof.
  refine (proj1 (Visit_writes_only_the_message (pods_matching "app=foo") fn_note ""
                   (script_state not_found_Status [(ObjectRef "", Some (StatusErrorPtr 1))])
                   (ObjectRef "") (StatusErrorPtr 1) (script_state not_found_Status [])
                   _ 0%nat)); reflexivity.
Defined.
